(** * tdl: storage bootstrap of the root command (cmd/root.go)

    A shallow embedding of [cmd/root.go]: the root command's
    [PersistentPreRunE] / [PersistentPostRunE] hooks, the namespace
    completion function, [tRun] and [migrateLegacyToBolt], together with
    the pieces of the libraries they call ([errors.Wrap], [multierr],
    cobra's hook sequencing) and of the packages [pkg/kv], [pkg/tclient]
    and [core/tclient], whose sources are not part of [cmd/].

    Go's [error] interface value is [option error]: [None] is [nil].
    Calls to collaborators are recorded in a trace and their failures are
    drawn from an oracle indexed by call site, so that every path of the
    code can be exercised. *)

From Stdlib Require Import Ascii String List ZArith Bool Lia.
From stdpp Require Import base option list gmap strings fin_maps.

Set Warnings "-register-all".

Local Open Scope string_scope.
Local Open Scope list_scope.

(* ===================================================================== *)
(** ** Errors: github.com/go-faster/errors                                *)
(* ===================================================================== *)

Module errors.

(** The kinds of error the design distinguishes (spec section 7). *)
Inductive ErrorKind :=
| ConfigError
| OpenError
| IOError
| MigrationError
| AuthError
| CancellationError.

(** An error value.  [ErrNew] is a leaf ([errors.New]), [ErrWrap] is the
    result of [errors.Wrap], [ErrMulti] is multierr's aggregate, and
    [ErrKinded] is an error carrying one of the design's kinds. *)
Inductive error :=
| ErrNew (msg : string)
| ErrKinded (k : ErrorKind) (cause : error)
| ErrWrap (msg : string) (cause : error)
| ErrMulti (errs : list error).

(** [errors.Wrap(err, message)]; every call in root.go passes a non-nil
    [err]. *)
Definition Wrap (err : error) (message : string) : error :=
  ErrWrap message err.

(** [contains u e]: [u] is reachable from [e] by unwrapping, the chain
    followed by [errors.Is]. *)
Inductive contains (u : error) : error -> Prop :=
| contains_here : contains u u
| contains_wrap m e : contains u e -> contains u (ErrWrap m e)
| contains_kinded k e : contains u e -> contains u (ErrKinded k e)
| contains_multi l e : In e l -> contains u e -> contains u (ErrMulti l).

End errors.

(* ===================================================================== *)
(** ** go.uber.org/multierr                                               *)
(* ===================================================================== *)

Module multierr.
Import errors.

(** [multierr.Errors(err)]: the errors an error is composed of. *)
Definition Errors (err : option error) : list error :=
  match err with
  | None => []
  | Some (ErrMulti l) => l
  | Some e => [e]
  end.

(** [fromSlice]: nil entries are dropped, nested aggregates are
    flattened one level, a single survivor is returned as it is. *)
Definition fromSlice (errs : list (option error)) : option error :=
  match omap id errs with
  | [] => None
  | [e] => Some e
  | es => Some (ErrMulti (concat (map (fun e => Errors (Some e)) es)))
  end.

(** [multierr.Combine(errors...)]. *)
Definition Combine (errs : list (option error)) : option error :=
  fromSlice errs.

(** [multierr.Append(left, right)]. *)
Definition Append (left right : option error) : option error :=
  match left, right with
  | None, _ => right
  | _, None => left
  | Some l, Some r => Some (ErrMulti (Errors (Some l) ++ Errors (Some r)))
  end.

End multierr.

(** [wraps e u]: the error [e] carries the failure [u].  An aggregate
    failure is carried through its members, since multierr flattens
    aggregates when it appends to them. *)
Definition wraps (e u : errors.error) : Prop :=
  Forall (fun x => errors.contains x e) (multierr.Errors (Some u)).

(* ===================================================================== *)
(** ** pkg/kv: drivers, engines and the migration blob                    *)
(* ===================================================================== *)

Module kv.
Import errors.

(** [kv.Driver]: the two drivers root.go names. *)
Inductive Driver :=
| DriverLegacy
| DriverBolt.

(** Modelled from the spec: [Driver.String()] is absent from cmd/; the
    spec writes the legacy driver's name as "legacy" (section 8). *)
Definition Driver_String (d : Driver) : string :=
  match d with
  | DriverLegacy => "legacy"
  | DriverBolt => "bolt"
  end.

Definition Driver_of_string (s : string) : option Driver :=
  if String.eqb s "legacy" then Some DriverLegacy
  else if String.eqb s "bolt" then Some DriverBolt
  else None.

(** [kv.DriverTypeKey]: the option key that selects the driver; the help
    text of the storage flag (root.go:118) gives the format
    [type=driver,key1=value1,key2=value2]. *)
Definition DriverTypeKey : string := "type".

(** A value stored under a key. *)
Definition Value := list Byte.byte.

(** What one backend persists: namespace -> key -> value. *)
Abbreviation Store := (gmap string (gmap string Value)).

(** The filesystem as far as the storage layer sees it: the store found
    at each path that exists. *)
Abbreviation Disk := (gmap string Store).

(** Driver configuration: option key -> string value. *)
Abbreviation Config := (gmap string string).

(** [kv.Storage]: an engine owns one driver, fixed at construction. *)
Record Engine := { eng_driver : Driver; eng_path : string }.

(** [kv.KV]: a handle on one namespace of an engine. *)
Record KV := { kv_engine : Engine; kv_ns : string }.

(** [kv.Meta], the migration export blob: for every namespace, its
    key/value pairs, independent of the driver that produced it. *)
Definition Meta := list (string * list (string * Value)).

(** Modelled from the spec: [fsutil.PathExists] is absent from cmd/.
    Section 4.2: "the new-format default store already exists on disk". *)
Definition PathExists (d : Disk) (path : string) : bool :=
  bool_decide (is_Some (d !! path)).

(** Modelled from the spec: the drivers are absent from cmd/.  Section 3:
    an engine serves a namespace -> key -> value mapping; an engine whose
    path does not exist yet is a brand-new, empty one. *)
Definition contents (d : Disk) (e : Engine) : Store :=
  default ∅ (d !! eng_path e).

(** Modelled from the spec: [kv.NewWithMap] is absent from cmd/.  Section
    4.1: "Create(config) -> Engine, fails with ConfigError on unknown
    identifier or missing required option"; section 6: file-backed
    variants need a path.  [io] is the failure, if any, of the backend
    when it is opened. *)
Definition NewWithMap (cfg : Config) (io : option error) : Engine + error :=
  match cfg !! DriverTypeKey with
  | None => inr (ErrKinded ConfigError (ErrNew "driver type is not set"))
  | Some name =>
    match Driver_of_string name with
    | None => inr (ErrKinded ConfigError (ErrNew "unknown driver"))
    | Some drv =>
      match cfg !! "path" with
      | None => inr (ErrKinded ConfigError (ErrNew "path is not set"))
      | Some p =>
        match io with
        | Some err => inr err
        | None => inl {| eng_driver := drv; eng_path := p |}
        end
      end
    end
  end.

(** Modelled from the spec: [Storage.Open] is absent from cmd/.  Section
    4.1: "Open(namespace) -> NamespaceHandle, fails with OpenError". *)
Definition Open (e : Engine) (ns : string) (io : option error) : KV + error :=
  match io with
  | Some err => inr (ErrKinded OpenError err)
  | None => inl {| kv_engine := e; kv_ns := ns |}
  end.

(** Modelled from the spec: [Storage.Namespaces] is absent from cmd/.
    Section 4.1: "full list of persisted namespace names; must surface a
    read error rather than silently return an empty list". *)
Definition Namespaces (d : Disk) (e : Engine) (io : option error)
  : list string * option error :=
  match io with
  | Some err => ([], Some err)
  | None => ((map_to_list (contents d e)).*1, None)
  end.

(** Modelled from the spec: the body of [Storage.MigrateTo], absent from
    cmd/.  Serialising a store: every namespace with every key/value
    pair. *)
Definition export (s : Store) : Meta :=
  (fun p => (p.1, map_to_list p.2)) <$> map_to_list s.

(** Modelled from the spec: part of [Storage.MigrateFrom], absent from
    cmd/.  Writing pairs into one namespace, in the order of the blob. *)
Definition put_all (kvs : list (string * Value)) (h : gmap string Value)
  : gmap string Value :=
  foldl (fun h p => <[p.1 := p.2]> h) h kvs.

(** Modelled from the spec: the body of [Storage.MigrateFrom], absent
    from cmd/.  Applying a blob to a store, creating namespaces as
    needed. *)
Definition apply_blob (blob : Meta) (s : Store) : Store :=
  foldl (fun s p => <[p.1 := put_all p.2 (default ∅ (s !! p.1))]> s) s blob.

(** Modelled from the spec: [Storage.MigrateTo] is absent from cmd/.
    Section 4.1: "serializes every namespace/key/value into
    backend-independent form; valid even for zero namespaces".  It reads
    the engine's store and writes nothing. *)
Definition MigrateTo (d : Disk) (e : Engine) (io : option error)
  : Meta * option error :=
  match io with
  | Some err => ([], Some err)
  | None => (export (contents d e), None)
  end.

(** Modelled from the spec: [Storage.MigrateFrom] is absent from cmd/.
    Section 4.1: "applies a blob to this engine, creating namespaces as
    needed; safe on a brand-new empty engine; ... best-effort bulk import
    (not required to be all-or-nothing across namespaces)".  A failing
    import has written the first [progress] namespaces of the blob.  Only
    the engine's own path is written. *)
Definition MigrateFrom (d : Disk) (e : Engine) (blob : Meta)
    (io : option error) (progress : nat) : Disk * option error :=
  match io with
  | Some err =>
      (<[eng_path e := apply_blob (take progress blob) (contents d e)]> d,
       Some err)
  | None => (<[eng_path e := apply_blob blob (contents d e)]> d, None)
  end.

End kv.

(* ===================================================================== *)
(** ** pkg/tclient and the logger                                         *)
(* ===================================================================== *)

Module tclient.

(** [telegram.Middleware], identified by name. *)
Definition Middleware := string.

(** [tclient.Options], with the fields root.go sets. *)
Record Options := {
  opt_KV : kv.KV;
  opt_Proxy : string;
  opt_NTP : string;
  opt_ReconnectTimeout : Z;
  opt_UpdateHandler : option string
}.

(** [*telegram.Client] as built by [tclient.New(ctx, o, login, mws...)]. *)
Record Client := {
  cl_options : Options;
  cl_login : bool;
  cl_middlewares : list Middleware
}.

End tclient.

Module zap.

Inductive Level := InfoLevel | DebugLevel.

(** The logger [logutil.New(level, path)] builds. *)
Record Logger := { log_level : Level; log_path : string }.

End zap.

(* ===================================================================== *)
(** ** The world root.go runs in                                          *)
(* ===================================================================== *)

(** The places of root.go that call a collaborator that may fail. *)
Inductive Site :=
| AtNewLegacy      (* root.go:195 kv.NewWithMap(DefaultLegacyStorage) *)
| AtNewBolt        (* root.go:201 kv.NewWithMap(DefaultBoltStorage) *)
| AtMigrateTo      (* root.go:207 legacy.MigrateTo() *)
| AtMigrateFrom    (* root.go:212 bolt.MigrateFrom(meta) *)
| AtCloseBolt      (* root.go:205 deferred multierr.Close(bolt) *)
| AtCloseLegacy    (* root.go:199 deferred multierr.Close(legacy) *)
| AtNewStorage     (* root.go:80 kv.NewWithMap(viper...) *)
| AtCloseStorage   (* root.go:90 kv.From(ctx).Close() *)
| AtSync           (* root.go:91 logctx.From(ctx).Sync() *)
| AtNamespaces     (* root.go:137 engine.Namespaces() *)
| AtOpen           (* root.go:172 kv.From(ctx).Open(ns) *)
| AtClientNew      (* root.go:184 tclient.New(...) *)
| AtAuth.          (* root.go:189 tclientcore.RunWithAuth(...) *)

(** What was called, with its arguments. *)
Inductive Call :=
| CLoggerNew (l : zap.Logger)
| CInfo (msg field : string)
| CNewWithMap (cfg : kv.Config)
| CMigrateTo (e : kv.Engine)
| CMigrateFrom (e : kv.Engine) (blob : kv.Meta)
| CClose (e : kv.Engine)
| CSync (l : zap.Logger)
| CNamespaces (e : kv.Engine)
| COpen (e : kv.Engine) (ns : string)
| CClientNew (o : tclient.Options) (login : bool)
             (mws : list tclient.Middleware)
| CRunWithAuth (c : tclient.Client).

Inductive Event :=
| Ev (s : Site) (c : Call)     (* a call made at a site that may fail *)
| Log (c : Call).              (* logger construction and log lines *)

(** Flags as viper and cobra report them, and the failures the
    collaborators will raise, by call site. *)
Record Env := {
  storage_changed : bool;      (* cmd.Flags().Lookup(FlagStorage).Changed *)
  flag_storage : kv.Config;    (* viper.GetStringMapString(FlagStorage) *)
  flag_debug : bool;           (* viper.GetBool(FlagDebug) *)
  flag_namespace : string;     (* viper.GetString(FlagNamespace) *)
  flag_proxy : string;         (* viper.GetString(FlagProxy) *)
  flag_ntp : string;           (* viper.GetString(FlagNTP) *)
  flag_reconnect_timeout : Z;  (* viper.GetDuration(FlagReconnectTimeout) *)
  fails : Site -> option errors.error;
  import_progress : nat        (* namespaces written by a failing import *)
}.

Record World := {
  w_env : Env;
  w_disk : kv.Disk;
  w_trace : list Event
}.

(** Computations of root.go: they read and update the world. *)
Definition M (A : Type) : Type := World -> A * World.

#[global] Instance M_ret : MRet M := fun A a w => (a, w).
#[global] Instance M_bind : MBind M :=
  fun A B k m w => let (a, w') := m w in k a w'.

Definition emit (ev : Event) : M unit := fun w =>
  (tt, {| w_env := w_env w; w_disk := w_disk w;
          w_trace := w_trace w ++ [ev] |}).

Definition ask : M Env := fun w => (w_env w, w).

Definition get_disk : M kv.Disk := fun w => (w_disk w, w).

Definition put_disk (d : kv.Disk) : M unit := fun w =>
  (tt, {| w_env := w_env w; w_disk := d; w_trace := w_trace w |}).

(** The calls, as made from root.go at a given site. *)
Definition call_NewWithMap (s : Site) (cfg : kv.Config)
  : M (kv.Engine + errors.error) :=
  env ← ask;
  emit (Ev s (CNewWithMap cfg));;
  mret (kv.NewWithMap cfg (fails env s)).

Definition call_MigrateTo (s : Site) (e : kv.Engine)
  : M (kv.Meta * option errors.error) :=
  env ← ask;
  emit (Ev s (CMigrateTo e));;
  d ← get_disk;
  mret (kv.MigrateTo d e (fails env s)).

Definition call_MigrateFrom (s : Site) (e : kv.Engine) (blob : kv.Meta)
  : M (option errors.error) :=
  env ← ask;
  emit (Ev s (CMigrateFrom e blob));;
  d ← get_disk;
  let r := kv.MigrateFrom d e blob (fails env s) (import_progress env) in
  put_disk r.1;;
  mret r.2.

(** Modelled from the spec: [Storage.Close] is absent from cmd/.  Section
    4.1: "Close() releases backend resources"; it leaves the persisted
    data as it is. *)
Definition call_Close (s : Site) (e : kv.Engine) : M (option errors.error) :=
  env ← ask;
  emit (Ev s (CClose e));;
  mret (fails env s).

Definition call_Sync (l : zap.Logger) : M (option errors.error) :=
  env ← ask;
  emit (Ev AtSync (CSync l));;
  mret (fails env AtSync).

Definition call_Namespaces (e : kv.Engine)
  : M (list string * option errors.error) :=
  env ← ask;
  emit (Ev AtNamespaces (CNamespaces e));;
  d ← get_disk;
  mret (kv.Namespaces d e (fails env AtNamespaces)).

Definition call_Open (e : kv.Engine) (ns : string)
  : M (kv.KV + errors.error) :=
  env ← ask;
  emit (Ev AtOpen (COpen e ns));;
  mret (kv.Open e ns (fails env AtOpen)).

(** Modelled from the spec: [tclient.New(ctx, o, login, middlewares...)]
    is absent from cmd/.  Section 4.3, step 3: "construct the underlying
    client from those options". *)
Definition call_ClientNew (o : tclient.Options) (login : bool)
    (mws : list tclient.Middleware) : M (tclient.Client + errors.error) :=
  env ← ask;
  emit (Ev AtClientNew (CClientNew o login mws));;
  mret (match fails env AtClientNew with
        | Some err => inr err
        | None => inl {| tclient.cl_options := o; tclient.cl_login := login;
                         tclient.cl_middlewares := mws |}
        end).

(** Modelled from the spec: [tclientcore.RunWithAuth] is absent from cmd/.
    Section 4.3, steps 4 and 5: run authentication, then invoke the task
    function, propagating its error unchanged; section 7: a failed
    authentication is an AuthError. *)
Definition RunWithAuth (c : tclient.Client) (f : M (option errors.error))
  : M (option errors.error) :=
  env ← ask;
  emit (Ev AtAuth (CRunWithAuth c));;
  match fails env AtAuth with
  | Some err => mret (Some (errors.ErrKinded errors.AuthError err))
  | None => f
  end.

#[global] Instance Site_eq_dec : EqDecision Site.
Proof. solve_decision. Defined.

(** The call sites visited by a trace, in order. *)
Definition sites (t : list Event) : list Site :=
  omap (fun ev => match ev with Ev s _ => Some s | Log _ => None end) t.

(** How many times a site was visited. *)
Definition visits (s : Site) (t : list Event) : nat :=
  length (filter (fun x => x = s) (sites t)).

(** The events a computation adds to the trace of the world it starts in. *)
Definition run_events {A} (m : M A) (w : World) : list Event :=
  drop (length (w_trace w)) (w_trace (m w).2).

Module filepath.

(** The path elements of [path]: the pieces between separators, empty
    ones included. *)
Fixpoint elements (path : string) : list string :=
  match path with
  | EmptyString => [EmptyString]
  | String c rest =>
    if Ascii.eqb c "/"%char then EmptyString :: elements rest
    else match elements rest with
         | e :: es => String c e :: es
         | [] => [String c EmptyString]
         end
  end.

(** [path[0]] is a separator. *)
Definition isRooted (path : string) : bool :=
  match path with
  | String c _ => Ascii.eqb c "/"%char
  | EmptyString => false
  end.

(** One round of the loop of [Clean], which reads one path element.  The
    state is the elements written so far, the last one first, and
    [dotdot], the number of leading ".." elements, past which ".." cannot
    backtrack. *)
Definition clean_step (rooted : bool) (st : list string * nat) (e : string)
  : list string * nat :=
  if String.eqb e "" then st                 (* empty path element *)
  else if String.eqb e "." then st           (* . element *)
  else if String.eqb e ".." then             (* .. element *)
    if Nat.ltb st.2 (length st.1) then (tail st.1, st.2)  (* can backtrack *)
    else if rooted then st
    else (".." :: st.1, S st.2)              (* not rooted: append .. *)
  else (e :: st.1, st.2).                    (* real path element *)

(** [filepath.Clean(path)] with [/] as the separator: the shortest path
    equivalent to [path] by purely lexical processing. *)
Definition Clean (path : string) : string :=
  if String.eqb path "" then "."
  else
    let rooted := isRooted path in
    let out := (foldl (clean_step rooted) ([], 0) (elements path)).1 in
    match out, rooted with
    | [], false => "."
    | _, _ => (if rooted then "/" else "") +:+ String.concat "/" (rev out)
    end.

(** [filepath.Join(elem...)]: the elements from the first non-empty one
    on, joined with the separator and cleaned; the empty string if there
    is none. *)
Fixpoint join (elem : list string) : string :=
  match elem with
  | [] => ""
  | e :: rest =>
    if String.eqb e "" then join rest else Clean (String.concat "/" elem)
  end.

(** [filepath.Join(dir, name)]. *)
Definition Join (dir name : string) : string := join [dir; name].

(** A single path element that is neither empty nor "." nor "..". *)
Definition real_element (name : string) : Prop :=
  elements name = [name] /\ String.eqb name "" = false /\
  String.eqb name "." = false /\ String.eqb name ".." = false.

End filepath.

Arguments filepath.Join : simpl never.

(* ===================================================================== *)
(** ** github.com/spf13/cobra                                             *)
(* ===================================================================== *)

Module cobra.

Inductive ShellCompDirective :=
| ShellCompDirectiveDefault
| ShellCompDirectiveNoFileComp
| ShellCompDirectiveFilterDirs.

(** [Command.execute] for a command whose root has both persistent hooks:
    the persistent pre-run hook, the command's own [RunE], then the
    persistent post-run hook; the first of them to return an error ends
    the run with that error. *)
Definition execute {C} (PersistentPreRunE : M (C + errors.error))
    (RunE : C -> M (option errors.error))
    (PersistentPostRunE : C -> M (option errors.error))
  : M (option errors.error) :=
  r ← PersistentPreRunE;
  match r with
  | inr err => mret (Some err)
  | inl ctx =>
    err ← RunE ctx;
    match err with
    | Some e => mret (Some e)
    | None => PersistentPostRunE ctx
    end
  end.

End cobra.

(* ===================================================================== *)
(** ** cmd/root.go                                                        *)
(* ===================================================================== *)

Module cmd.
Import errors multierr.

(** [multierr.Close(closer)]: an invoker that closes an engine when it is
    invoked (the site is where the deferred call was registered). *)
Inductive Invoker := CloseInvoker (s : Site) (e : kv.Engine).

Definition Invoke (i : Invoker) : M (option error) :=
  match i with CloseInvoker s e => call_Close s e end.

Definition invoker_site (i : Invoker) : Site :=
  match i with CloseInvoker s _ => s end.

Definition invoker_event (i : Invoker) : Event :=
  match i with CloseInvoker s e => Ev s (CClose e) end.

(** [multierr.AppendInvoke(into, invoker)]:
    [*into = multierr.Append( *into, invoker.Invoke())]. *)
Definition AppendInvoke (into : option error) (i : Invoker)
  : M (option error) :=
  err ← Invoke i;
  mret (Append into err).

(** The deferred calls of a function run when it returns, the most
    recently deferred (the head of the list) first, each updating the
    named result. *)
Fixpoint run_deferred (ds : list Invoker) (rerr : option error)
  : M (option error) :=
  match ds with
  | [] => mret rerr
  | i :: ds' => r ← AppendInvoke rerr i; run_deferred ds' r
  end.

(** The process-lifetime context a command receives once
    [PersistentPreRunE] has returned nil: the logger ([logctx.From]) and
    the storage engine ([kv.From]). *)
Record Ctx := { ctx_logger : zap.Logger; ctx_kv : kv.Engine }.

Section Root.

(** [consts.DataDir] and [consts.LogPath] are not part of cmd/. *)
Variable DataDir : string.
Variable LogPath : string.

Definition legacyPath : string := filepath.Join DataDir "data.kv".

Definition defaultBoltPath : string := filepath.Join DataDir "data".

Definition DefaultLegacyStorage : kv.Config :=
  {[ kv.DriverTypeKey := kv.Driver_String kv.DriverLegacy;
     "path" := legacyPath ]}.

Definition DefaultBoltStorage : kv.Config :=
  {[ kv.DriverTypeKey := kv.Driver_String kv.DriverBolt;
     "path" := defaultBoltPath ]}.

(** The body of [migrateLegacyToBolt] up to its [return]: the value the
    return statement assigns to [rerr], and the deferred calls registered
    so far. *)
Definition migrateLegacyToBolt_body : M (option error * list Invoker) :=
  r ← call_NewWithMap AtNewLegacy DefaultLegacyStorage;
  match r with
  | inr err => mret (Some (Wrap err "create legacy kv storage"), [])
  | inl legacy =>
    let deferred1 := [CloseInvoker AtCloseLegacy legacy] in
    r ← call_NewWithMap AtNewBolt DefaultBoltStorage;
    match r with
    | inr err => mret (Some (Wrap err "create bolt kv storage"), deferred1)
    | inl bolt =>
      let deferred2 := CloseInvoker AtCloseBolt bolt :: deferred1 in
      r ← call_MigrateTo AtMigrateTo legacy;
      match r.2 with
      | Some err => mret (Some (Wrap err "migrate legacy to bolt"), deferred2)
      | None =>
        err ← call_MigrateFrom AtMigrateFrom bolt r.1;
        mret (err, deferred2)
      end
    end
  end.

Definition migrateLegacyToBolt : M (option error) :=
  r ← migrateLegacyToBolt_body;
  run_deferred r.2 r.1.

(** [PersistentPreRunE] of the root command.  It returns the context it
    attached to the command, or the error. *)
Definition PersistentPreRunE : M (Ctx + error) :=
  env ← ask;
  let level := if flag_debug env then zap.DebugLevel else zap.InfoLevel in
  let logger := {| zap.log_level := level;
                   zap.log_path := filepath.Join LogPath "latest.log" |} in
  emit (Log (CLoggerNew logger));;
  let ns := flag_namespace env in
  (if negb (String.eqb ns "")
   then emit (Log (CInfo "Namespace" ns)) else mret tt);;
  d ← get_disk;
  merr ← (if negb (storage_changed env)
             && negb (kv.PathExists d defaultBoltPath)
          then migrateLegacyToBolt else mret None);
  match merr with
  | Some err => mret (inr (Wrap err "migrate legacy to bolt"))
  | None =>
    r ← call_NewWithMap AtNewStorage (flag_storage env);
    match r with
    | inr err => mret (inr (Wrap err "create kv storage"))
    | inl storage =>
      mret (inl {| ctx_logger := logger; ctx_kv := storage |})
    end
  end.

(** [PersistentPostRunE] of the root command. *)
Definition PersistentPostRunE (ctx : Ctx) : M (option error) :=
  e1 ← call_Close AtCloseStorage (ctx_kv ctx);
  e2 ← call_Sync (ctx_logger ctx);
  mret (Combine [e1; e2]).

(** The completion function registered for the namespace flag, as a
    function of what [engine.Namespaces()] returned.  A nil slice is the
    empty list. *)
Definition completeNamespace_of (r : list string * option error)
  : list string * cobra.ShellCompDirective :=
  match r.2 with
  | Some _ => ([], cobra.ShellCompDirectiveNoFileComp)
  | None => (r.1, cobra.ShellCompDirectiveNoFileComp)
  end.

Definition completeNamespace (ctx : Ctx)
  : M (list string * cobra.ShellCompDirective) :=
  r ← call_Namespaces (ctx_kv ctx);
  mret (completeNamespace_of r).

(** [tRun(ctx, f, middlewares...)]. *)
Definition tRun (ctx : Ctx)
    (f : tclient.Client -> kv.KV -> M (option error))
    (middlewares : list tclient.Middleware) : M (option error) :=
  env ← ask;
  r ← call_Open (ctx_kv ctx) (flag_namespace env);
  match r with
  | inr err => mret (Some (Wrap err "open kv storage"))
  | inl kvd =>
    let o := {| tclient.opt_KV := kvd;
                tclient.opt_Proxy := flag_proxy env;
                tclient.opt_NTP := flag_ntp env;
                tclient.opt_ReconnectTimeout := flag_reconnect_timeout env;
                tclient.opt_UpdateHandler := None |} in
    r ← call_ClientNew o false middlewares;
    match r with
    | inr err => mret (Some (Wrap err "create client"))
    | inl client => RunWithAuth client (f client kvd)
    end
  end.

(** A run of one command of the tool: cobra runs the root's hooks around
    the command body. *)
Definition Execute (body : Ctx -> M (option error)) : M (option error) :=
  cobra.execute PersistentPreRunE body PersistentPostRunE.

(** The engines the fixed configurations denote. *)
Definition legacyEngine : kv.Engine :=
  {| kv.eng_driver := kv.DriverLegacy; kv.eng_path := legacyPath |}.

Definition boltEngine : kv.Engine :=
  {| kv.eng_driver := kv.DriverBolt; kv.eng_path := defaultBoltPath |}.

End Root.

(** The sites inside [migrateLegacyToBolt]. *)
Definition in_migration (s : Site) : bool :=
  match s with
  | AtNewLegacy | AtNewBolt | AtMigrateTo | AtMigrateFrom
  | AtCloseBolt | AtCloseLegacy => true
  | _ => false
  end.


(** The phases of [tRun] that may fail before the task runs. *)
Inductive Phase := PhaseOpen | PhaseClient | PhaseAuth.

(** The phase that fails first under an oracle, if any. *)
Definition first_failure (env : Env) : option Phase :=
  match fails env AtOpen with
  | Some _ => Some PhaseOpen
  | None =>
    match fails env AtClientNew with
    | Some _ => Some PhaseClient
    | None =>
      match fails env AtAuth with
      | Some _ => Some PhaseAuth
      | None => None
      end
    end
  end.

(** Whether an error value is non-nil ([err != nil]). *)
Definition isErr (err : option error) : bool :=
  match err with Some _ => true | None => false end.

(** Whether the call made at a site fails. *)
Definition failing (env : Env) (s : Site) : bool := isErr (fails env s).

(** Whether a hook that returns a context or an error returned nil. *)
Definition succeeded {C} (r : C + error) : bool :=
  match r with inl _ => true | inr _ => false end.

(** The logger construction and the log lines of a trace, in order. *)
Definition logs (t : list Event) : list Call :=
  omap (fun ev => match ev with Log c => Some c | Ev _ _ => None end) t.


Section ExtFiles.

(** [filepath.Glob(pattern)]: the names that match, or the error it
    reports for a malformed pattern.  It reads the filesystem, which is
    fixed during a completion. *)
Variable Glob : string -> list string * option error.

(** The loop of the function [completeExtFiles(ext...)] returns, with the
    slice [files] built so far.  A nil slice is the empty list. *)
Fixpoint completeExtFiles_loop (toComplete : string) (ext : list string)
    (files : list string) : list string * cobra.ShellCompDirective :=
  match ext with
  | [] => (files, cobra.ShellCompDirectiveFilterDirs)
  | e :: ext' =>
    let r := Glob (toComplete +:+ "*." +:+ e) in
    match r.2 with
    | Some _ => ([], cobra.ShellCompDirectiveDefault)
    | None => completeExtFiles_loop toComplete ext' (files ++ r.1)
    end
  end.

(** [completeExtFiles(ext...)(cmd, args, toComplete)]; [cmd] and [args]
    are not used. *)
Definition completeExtFiles (ext : list string) (toComplete : string)
  : list string * cobra.ShellCompDirective :=
  completeExtFiles_loop toComplete ext [].

End ExtFiles.

End cmd.

(* ===================================================================== *)
(** ** Concrete worlds                                                    *)
(* ===================================================================== *)

Module examples.
Import errors.

Definition DataDir : string := "/home/user/.tdl".
Definition LogPath : string := "/home/user/.tdl/log".

Definition session : kv.Value := [Byte.x01; Byte.x02; Byte.x03].
Definition app : kv.Value := [Byte.x64].

(** A legacy store with two accounts. *)
Definition legacy_store : kv.Store :=
  {[ "default" := {[ "session" := session; "app" := app ]};
     "work" := {[ "session" := [Byte.x2a] ]} ]}.

Definition disk0 : kv.Disk := {[ cmd.legacyPath DataDir := legacy_store ]}.

Definition no_failure : Site -> option error := fun _ => None.

Definition fail_at (s : Site) (e : error) : Site -> option error :=
  fun s' => if decide (s' = s) then Some e else None.

Definition with_fails (f : Site -> option error) (progress : nat) : Env :=
  {| storage_changed := false;
     flag_storage := cmd.DefaultBoltStorage DataDir;
     flag_debug := false;
     flag_namespace := "default";
     flag_proxy := "";
     flag_ntp := "";
     flag_reconnect_timeout := 300000000000;
     fails := f;
     import_progress := progress |}.

(** First start after the upgrade: only the legacy store exists, the
    storage flag was left alone, nothing fails. *)
Definition w0 : World :=
  {| w_env := with_fails no_failure 0; w_disk := disk0; w_trace := [] |}.

Definition permission_denied : error := ErrNew "permission denied".
Definition disk_full : error := ErrNew "disk full".

(** The legacy store cannot be opened. *)
Definition w_legacy_unavailable : World :=
  {| w_env := with_fails (fail_at AtNewLegacy permission_denied) 0;
     w_disk := disk0; w_trace := [] |}.

(** The import fails after one namespace has been written. *)
Definition w_import_fails : World :=
  {| w_env := with_fails (fail_at AtMigrateFrom disk_full) 1;
     w_disk := disk0; w_trace := [] |}.

(** Authentication is refused. *)
Definition w_unauthorized : World :=
  {| w_env := with_fails (fail_at AtAuth (ErrNew "not authorized")) 0;
     w_disk := disk0; w_trace := [] |}.

(** The context of a command running on the default bolt storage. *)
Definition ctx0 : cmd.Ctx :=
  {| cmd.ctx_logger := {| zap.log_level := zap.InfoLevel;
                          zap.log_path := filepath.Join LogPath "latest.log" |};
     cmd.ctx_kv := cmd.boltEngine DataDir |}.

(** A command body that fails with a business error, and one that
    succeeds. *)
Definition business_error : error := ErrNew "chat not found".

Definition failing_body : cmd.Ctx -> M (option error) :=
  fun _ => mret (Some business_error).

Definition ok_body : cmd.Ctx -> M (option error) :=
  fun _ => mret None.

(** A task for [tRun] that reports an error of its own. *)
Definition task : tclient.Client -> kv.KV -> M (option error) :=
  fun c kvd =>
    emit (Log (CInfo "task" (kv.kv_ns kvd)));;
    mret (Some business_error).

(** Closing the bolt engine fails after a complete import. *)
Definition close_failed : error := ErrNew "close: file already closed".

Definition w_close_fails : World :=
  {| w_env := with_fails (fail_at AtCloseBolt close_failed) 0;
     w_disk := disk0; w_trace := [] |}.

(** Closing the process storage fails at teardown; the bolt store is
    already there, so start-up does not migrate. *)
Definition w_teardown_fails : World :=
  {| w_env := with_fails (fail_at AtCloseStorage close_failed) 0;
     w_disk := {[ cmd.defaultBoltPath DataDir := legacy_store ]};
     w_trace := [] |}.



(** A task that succeeds. *)
Definition ok_task : tclient.Client -> kv.KV -> M (option error) :=
  fun _ _ => mret None.

(** A directory with two JSON files and one text file whose names start
    with "exp"; a pattern with an unclosed bracket is malformed. *)
Definition bad_pattern : error := ErrNew "syntax error in pattern".

Definition glob0 (pattern : string) : list string * option error :=
  if String.eqb pattern "exp*.json" then (["exp1.json"; "export.json"], None)
  else if String.eqb pattern "exp*.txt" then (["exp.txt"], None)
  else if String.eqb pattern "exp*.[" then ([], Some bad_pattern)
  else ([], None).

End examples.

(* ===================================================================== *)
(** * Properties                                                          *)
(* ===================================================================== *)

Module multierr_facts.
Import errors multierr.

Lemma Errors_Append (l r : option error) :
  Errors (Append l r) = Errors l ++ Errors r.
Proof.
  destruct l as [a|], r as [b|]; simpl; try reflexivity.
  now rewrite app_nil_r.
Qed.

Lemma Errors_Combine_pair (a b : option error) :
  Errors (Combine [a; b]) = Errors a ++ Errors b.
Proof.
  destruct a as [a|], b as [b|]; cbn; try reflexivity.
  - now rewrite app_nil_r.
  - now rewrite app_nil_r.
Qed.


Lemma contains_trans (x y z : error) :
  contains x y -> contains y z -> contains x z.
Proof.
  intros Hxy Hyz. induction Hyz.
  - assumption.
  - now apply contains_wrap.
  - now apply contains_kinded.
  - eapply contains_multi; eassumption.
Qed.

Lemma contains_Errors (x e : error) :
  In x (Errors (Some e)) -> contains x e.
Proof.
  destruct e; simpl; intros H;
    try (destruct H as [<-|[]]; apply contains_here).
  eapply contains_multi; [exact H | apply contains_here].
Qed.


Lemma contains_Append_r (x : error) (l r : option error) (e : error) :
  In x (Errors r) -> Append l r = Some e -> contains x e.
Proof.
  intros Hx He. apply contains_Errors. rewrite <- He, Errors_Append.
  apply in_or_app. now right.
Qed.



Lemma wraps_member (e p u : error) :
  contains p e -> wraps p u -> wraps e u.
Proof.
  unfold wraps. rewrite !Forall_forall. intros Hp H x Hx.
  eapply contains_trans; [apply H, Hx | exact Hp].
Qed.





End multierr_facts.

Module kv_facts.
Import kv.

Lemma put_all_union (kvs : list (string * Value)) (h : gmap string Value) :
  put_all kvs h = list_to_map (reverse kvs) ∪ h.
Proof.
  revert h. induction kvs as [|[k v] kvs IH]; intros h.
  - simpl. now rewrite (left_id_L ∅ (∪)).
  - unfold put_all in *. simpl. rewrite IH, reverse_cons, list_to_map_app.
    simpl. rewrite insert_empty, <- (assoc_L (∪)).
    now rewrite <- insert_union_singleton_l.
Qed.

(** Writing back the pairs of a namespace rebuilds the namespace. *)
Lemma put_all_map_to_list (m : gmap string Value) :
  put_all (map_to_list m) ∅ = m.
Proof.
  rewrite put_all_union, (right_id_L ∅ (∪)).
  rewrite <- (list_to_map_to_list m) at 2.
  symmetry. apply list_to_map_proper.
  - apply NoDup_fst_map_to_list.
  - symmetry. apply reverse_Permutation.
Qed.

Lemma apply_blob_fresh (blob : Meta) (s : Store) :
  NoDup blob.*1 ->
  (forall p, p ∈ blob -> s !! p.1 = None) ->
  apply_blob blob s
  = list_to_map ((fun p => (p.1, put_all p.2 ∅)) <$> blob) ∪ s.
Proof.
  revert s. induction blob as [|[ns kvs] blob IH]; intros s Hnd Hfresh.
  - simpl. now rewrite (left_id_L ∅ (∪)).
  - rewrite fmap_cons in Hnd. apply NoDup_cons in Hnd as [Hns Hnd].
    change (apply_blob ((ns, kvs) :: blob) s)
      with (apply_blob blob (<[ns := put_all kvs (default ∅ (s !! ns))]> s)).
    assert (s !! ns = None) as -> by (apply (Hfresh (ns, kvs)); left).
    rewrite IH; [| exact Hnd |].
    + rewrite fmap_cons, list_to_map_cons. cbn [fst snd default].
      rewrite <- insert_union_l. symmetry. apply insert_union_r.
      apply not_elem_of_list_to_map_1.
      rewrite <- list_fmap_compose. exact Hns.
    + intros p Hp. rewrite lookup_insert_ne.
      * apply Hfresh. now right.
      * intros Heq. apply Hns. cbn [fst]. rewrite Heq.
        apply list_elem_of_fmap. now exists p.
Qed.

(** Export followed by import into an empty store is the identity. *)
Lemma apply_blob_export (s : Store) : apply_blob (export s) ∅ = s.
Proof.
  rewrite apply_blob_fresh.
  - rewrite (right_id_L ∅ (∪)). unfold export.
    rewrite <- list_fmap_compose.
    rewrite <- (list_to_map_to_list s) at 2. f_equal.
    rewrite <- (list_fmap_id (map_to_list s)) at 2.
    apply list_fmap_ext. intros i [ns m] _. simpl.
    now rewrite put_all_map_to_list.
  - unfold export. rewrite <- list_fmap_compose.
    apply NoDup_fst_map_to_list.
  - intros p _. apply lookup_empty.
Qed.

Lemma export_empty : export ∅ = [].
Proof. unfold export. now rewrite map_to_list_empty. Qed.

End kv_facts.

Module filepath_facts.
Import filepath.

Example Clean_empty : Clean "" = ".".
Proof. reflexivity. Qed.

Example Clean_elements : Clean "a//b/./c/" = "a/b/c".
Proof. reflexivity. Qed.

Example Clean_dotdot : Clean "a/b/../../.." = "..".
Proof. reflexivity. Qed.

Example Clean_rooted_dotdot : Clean "/../a" = "/a".
Proof. reflexivity. Qed.

Example Join_empty_dir : Join "" "data" = "data".
Proof. reflexivity. Qed.

Example Join_slash_terminated_dir : Join "/x/" "data" = "/x/data".
Proof. reflexivity. Qed.

Example Join_clean_dir : Join "/home/user/.tdl" "data.kv" = "/home/user/.tdl/data.kv".
Proof. reflexivity. Qed.

Example Join_nothing : Join "" "" = "".
Proof. reflexivity. Qed.

Lemma elements_nonempty (path : string) : elements path <> [].
Proof.
  destruct path as [|c rest]; simpl; [discriminate|].
  destruct (Ascii.eqb c "/"); [discriminate|].
  destruct (elements rest); discriminate.
Qed.

Lemma elements_app_sep (a b : string) :
  elements (a +:+ String "/" b) = elements a ++ elements b.
Proof.
  induction a as [|c a IH]; simpl; [reflexivity|].
  destruct (Ascii.eqb c "/"); [now rewrite IH|].
  rewrite IH. pose proof (elements_nonempty a) as Hne.
  destruct (elements a); [contradiction|reflexivity].
Qed.

Lemma append_assoc (a b c : string) : (a +:+ b) +:+ c = a +:+ b +:+ c.
Proof.
  induction a as [|x a IH]; [reflexivity|].
  change (String x ((a +:+ b) +:+ c) = String x (a +:+ b +:+ c)).
  now rewrite IH.
Qed.

Lemma concat_snoc (l : list string) (x : string) :
  String.concat "/" (l ++ [x])
  = match l with
    | [] => x
    | _ => String.concat "/" l +:+ "/" +:+ x
    end.
Proof.
  induction l as [|y l IH]; [reflexivity|].
  cbn [app]. destruct l as [|z l].
  - reflexivity.
  - change (String.concat "/" (y :: (z :: l) ++ [x]))
      with (y +:+ "/" +:+ String.concat "/" ((z :: l) ++ [x])).
    rewrite IH.
    change (String.concat "/" (y :: z :: l))
      with (y +:+ "/" +:+ String.concat "/" (z :: l)).
    now rewrite !append_assoc.
Qed.

Lemma real_element_not_rooted (name : string) :
  real_element name -> isRooted name = false.
Proof.
  intros [He _]. destruct name as [|c rest]; [reflexivity|]. simpl in *.
  destruct (Ascii.eqb c "/"); [|reflexivity].
  injection He as He _. discriminate He.
Qed.

Lemma isRooted_append (dir rest : string) :
  String.eqb dir "" = false -> isRooted (dir +:+ rest) = isRooted dir.
Proof. destruct dir; [discriminate|reflexivity]. Qed.

Lemma append_not_empty (dir rest : string) :
  String.eqb dir "" = false -> String.eqb (dir +:+ rest) "" = false.
Proof. destruct dir; [discriminate|reflexivity]. Qed.

(** Joining a directory with a real path element appends the element to
    a prefix that the directory alone determines. *)
Lemma Join_real_element (dir : string) :
  exists prefix, forall name,
    real_element name -> Join dir name = prefix +:+ name.
Proof.
  destruct (String.eqb dir "") eqn:Hdir.
  - exists "". intros name Hreal.
    pose proof (real_element_not_rooted name Hreal) as Hroot.
    destruct Hreal as (He & Hn & Hdot & Hdd).
    unfold Join. cbn [join]. rewrite Hdir, Hn.
    cbn [String.concat]. unfold Clean. rewrite Hn, Hroot, He.
    cbn [foldl]. unfold clean_step. rewrite Hn, Hdot, Hdd. reflexivity.
  - set (rooted := isRooted dir).
    set (st := foldl (clean_step rooted) ([], 0) (elements dir)).
    exists ((if rooted then "/" else "")
            +:+ match rev st.1 with
                | [] => ""
                | _ => String.concat "/" (rev st.1) +:+ "/"
                end).
    intros name (He & Hn & Hdot & Hdd).
    unfold Join. cbn [join]. rewrite Hdir.
    change (String.concat "/" [dir; name]) with (dir +:+ String "/" name).
    unfold Clean.
    rewrite (append_not_empty dir _ Hdir), (isRooted_append dir _ Hdir).
    fold rooted. rewrite elements_app_sep, He, foldl_app. fold st.
    assert (Hstep : clean_step rooted st name = (name :: st.1, st.2))
      by (unfold clean_step; now rewrite Hn, Hdot, Hdd).
    cbn [foldl]. rewrite Hstep. cbn [fst rev]. rewrite concat_snoc.
    destruct (rev st.1) eqn:Hrev.
    + now destruct rooted.
    + rewrite !append_assoc. now destruct rooted.
Qed.

End filepath_facts.

Module cmd_facts.
Import errors multierr cmd.

Lemma append_inj_l (p x y : string) : p +:+ x = p +:+ y -> x = y.
Proof.
  induction p as [|c p IH]; simpl; intros H; [exact H|].
  injection H as H. now apply IH.
Qed.

Lemma trace_app4 {A} (t : list A) a b c d :
  (((t ++ [a]) ++ [b]) ++ [c]) ++ [d] = t ++ [a; b; c; d].
Proof. now rewrite <- !app_assoc. Qed.

Lemma drop_own_length {A} (t l : list A) : drop (length t) (t ++ l) = l.
Proof. now rewrite drop_app_length. Qed.

Section Root.

Variable DataDir : string.
Variable LogPath : string.

Lemma paths_distinct : legacyPath DataDir <> defaultBoltPath DataDir.
Proof.
  unfold legacyPath, defaultBoltPath. intros H.
  destruct (filepath_facts.Join_real_element DataDir) as [prefix Hp].
  rewrite !Hp in H by (repeat split; reflexivity).
  apply append_inj_l in H. discriminate H.
Qed.

Lemma NewWithMap_legacy (io : option error) :
  kv.NewWithMap (DefaultLegacyStorage DataDir) io
  = match io with
    | Some err => inr err
    | None => inl (legacyEngine DataDir)
    end.
Proof.
  unfold kv.NewWithMap, DefaultLegacyStorage.
  rewrite lookup_insert_eq. simpl.
  rewrite lookup_insert_ne by discriminate.
  rewrite lookup_singleton_eq. reflexivity.
Qed.

Lemma NewWithMap_bolt (io : option error) :
  kv.NewWithMap (DefaultBoltStorage DataDir) io
  = match io with
    | Some err => inr err
    | None => inl (boltEngine DataDir)
    end.
Proof.
  unfold kv.NewWithMap, DefaultBoltStorage.
  rewrite lookup_insert_eq. simpl.
  rewrite lookup_insert_ne by discriminate.
  rewrite lookup_singleton_eq. reflexivity.
Qed.

Ltac run_monad :=
  unfold call_NewWithMap, call_MigrateTo, call_MigrateFrom, call_Close,
    call_Sync, call_Namespaces, call_Open, call_ClientNew, RunWithAuth,
    mbind, M_bind, mret, M_ret, ask, emit, get_disk, put_disk;
  cbn -[kv.NewWithMap kv.MigrateFrom kv.MigrateTo kv.export kv.contents
        kv.Namespaces kv.PathExists DefaultLegacyStorage DefaultBoltStorage
        legacyEngine boltEngine Append Combine migrateLegacyToBolt
        String.eqb].

Lemma migrateLegacyToBolt_body_run env d t :
  migrateLegacyToBolt_body DataDir (Build_World env d t)
  = let new_legacy := Ev AtNewLegacy (CNewWithMap (DefaultLegacyStorage DataDir)) in
    let new_bolt := Ev AtNewBolt (CNewWithMap (DefaultBoltStorage DataDir)) in
    let export := Ev AtMigrateTo (CMigrateTo (legacyEngine DataDir)) in
    let close_legacy := CloseInvoker AtCloseLegacy (legacyEngine DataDir) in
    let close_bolt := CloseInvoker AtCloseBolt (boltEngine DataDir) in
    match fails env AtNewLegacy with
    | Some e =>
        (Some (Wrap e "create legacy kv storage"), [],
         Build_World env d (t ++ [new_legacy]))
    | None =>
      match fails env AtNewBolt with
      | Some e =>
          (Some (Wrap e "create bolt kv storage"), [close_legacy],
           Build_World env d (t ++ [new_legacy; new_bolt]))
      | None =>
        match fails env AtMigrateTo with
        | Some e =>
            (Some (Wrap e "migrate legacy to bolt"),
             [close_bolt; close_legacy],
             Build_World env d (t ++ [new_legacy; new_bolt; export]))
        | None =>
            let blob := kv.export (kv.contents d (legacyEngine DataDir)) in
            let r := kv.MigrateFrom d (boltEngine DataDir) blob
                       (fails env AtMigrateFrom) (import_progress env) in
            (r.2, [close_bolt; close_legacy],
             Build_World env r.1
               (t ++ [new_legacy; new_bolt; export;
                      Ev AtMigrateFrom (CMigrateFrom (boltEngine DataDir) blob)]))
        end
      end
    end.
Proof.
  unfold migrateLegacyToBolt_body. run_monad.
  rewrite NewWithMap_legacy.
  destruct (fails env AtNewLegacy); [reflexivity|].
  run_monad. rewrite NewWithMap_bolt.
  destruct (fails env AtNewBolt); run_monad;
    [now rewrite <- !app_assoc|].
  unfold kv.MigrateTo.
  destruct (fails env AtMigrateTo); run_monad; now rewrite <- !app_assoc.
Qed.

Lemma run_deferred_run ds rerr env d t :
  run_deferred ds rerr (Build_World env d t)
  = (fold_left (fun r i => Append r (fails env (invoker_site i))) ds rerr,
     Build_World env d (t ++ map invoker_event ds)).
Proof.
  revert rerr t. induction ds as [|[s e] ds IH]; intros rerr t.
  - simpl. now rewrite app_nil_r.
  - simpl. unfold AppendInvoke, Invoke. run_monad.
    rewrite IH. now rewrite <- app_assoc.
Qed.

Lemma Errors_deferred ds rerr env :
  Errors (fold_left (fun r i => Append r (fails env (invoker_site i))) ds rerr)
  = Errors rerr ++ flat_map (fun i => Errors (fails env (invoker_site i))) ds.
Proof.
  revert rerr. induction ds as [|i ds IH]; intros rerr; simpl.
  - now rewrite app_nil_r.
  - rewrite IH, multierr_facts.Errors_Append. now rewrite <- app_assoc.
Qed.

(** [migrateLegacyToBolt], path by path: its result, the disk it leaves
    and the calls it made. *)
Lemma migrateLegacyToBolt_run env d t :
  migrateLegacyToBolt DataDir (Build_World env d t)
  = let new_legacy := Ev AtNewLegacy (CNewWithMap (DefaultLegacyStorage DataDir)) in
    let new_bolt := Ev AtNewBolt (CNewWithMap (DefaultBoltStorage DataDir)) in
    let export := Ev AtMigrateTo (CMigrateTo (legacyEngine DataDir)) in
    let close_legacy := Ev AtCloseLegacy (CClose (legacyEngine DataDir)) in
    let close_bolt := Ev AtCloseBolt (CClose (boltEngine DataDir)) in
    match fails env AtNewLegacy with
    | Some e =>
        (Some (Wrap e "create legacy kv storage"),
         Build_World env d (t ++ [new_legacy]))
    | None =>
      match fails env AtNewBolt with
      | Some e =>
          (Append (Some (Wrap e "create bolt kv storage"))
                  (fails env AtCloseLegacy),
           Build_World env d (t ++ [new_legacy; new_bolt; close_legacy]))
      | None =>
        match fails env AtMigrateTo with
        | Some e =>
            (Append (Append (Some (Wrap e "migrate legacy to bolt"))
                            (fails env AtCloseBolt))
                    (fails env AtCloseLegacy),
             Build_World env d
               (t ++ [new_legacy; new_bolt; export; close_bolt; close_legacy]))
        | None =>
            let blob := kv.export (kv.contents d (legacyEngine DataDir)) in
            let r := kv.MigrateFrom d (boltEngine DataDir) blob
                       (fails env AtMigrateFrom) (import_progress env) in
            (Append (Append r.2 (fails env AtCloseBolt))
                    (fails env AtCloseLegacy),
             Build_World env r.1
               (t ++ [new_legacy; new_bolt; export;
                      Ev AtMigrateFrom (CMigrateFrom (boltEngine DataDir) blob);
                      close_bolt; close_legacy]))
        end
      end
    end.
Proof.
  unfold migrateLegacyToBolt. unfold mbind, M_bind.
  rewrite migrateLegacyToBolt_body_run. cbv zeta.
  destruct (fails env AtNewLegacy); [reflexivity|].
  destruct (fails env AtNewBolt);
    [cbn [fst snd]; rewrite run_deferred_run; simpl;
     now rewrite <- app_assoc|].
  destruct (fails env AtMigrateTo);
    cbn [fst snd]; rewrite run_deferred_run; simpl;
    now rewrite <- app_assoc.
Qed.


(** Export then import into an engine whose path does not exist yet. *)
Lemma MigrateFrom_MigrateTo d eA eB n :
  d !! kv.eng_path eB = None ->
  kv.contents (kv.MigrateFrom d eB (kv.MigrateTo d eA None).1 None n).1 eB
  = kv.contents d eA.
Proof.
  intros Hfresh. unfold kv.MigrateFrom, kv.MigrateTo, kv.contents. simpl.
  rewrite lookup_insert_eq, Hfresh. simpl.
  apply kv_facts.apply_blob_export.
Qed.

(** C2.  Round trip: exporting the store of an engine of any driver and
    importing the blob into a freshly created engine of any driver (one
    whose path does not exist yet) succeeds and leaves the new engine
    with exactly the namespace -> key -> value mapping of the source,
    whatever that mapping is, the empty one included. *)
Theorem migrate_roundtrip (eA eB : kv.Engine) (d : kv.Disk) (n : nat) :
  d !! kv.eng_path eB = None ->
  let exported := kv.MigrateTo d eA None in
  let imported := kv.MigrateFrom d eB exported.1 None n in
  exported.2 = None /\ imported.2 = None /\
  kv.contents imported.1 eB = kv.contents d eA.
Proof.
  intros Hfresh exported imported. repeat split.
  subst exported imported. now apply MigrateFrom_MigrateTo.
Qed.

(** A successful automatic migration leaves the bolt store with the
    contents of the legacy store. *)
Lemma migrateLegacyToBolt_copies w :
  w_disk w !! defaultBoltPath DataDir = None ->
  fails (w_env w) AtNewLegacy = None ->
  fails (w_env w) AtNewBolt = None ->
  fails (w_env w) AtMigrateTo = None ->
  fails (w_env w) AtMigrateFrom = None ->
  kv.contents (w_disk (migrateLegacyToBolt DataDir w).2) (boltEngine DataDir)
  = kv.contents (w_disk w) (legacyEngine DataDir).
Proof.
  destruct w as [env d t]. simpl. intros Hfresh H1 H2 H3 H4.
  rewrite migrateLegacyToBolt_run. cbv zeta. rewrite H1, H2, H3, H4.
  cbn [snd w_disk].
  now apply (MigrateFrom_MigrateTo d (legacyEngine DataDir)
               (boltEngine DataDir)).
Qed.

(** C3 (amended).  The coordinator creates the legacy-default engine and
    then the new-default engine from the two fixed configurations, calls
    MigrateTo on the legacy engine and MigrateFrom with the resulting blob
    on the new engine, stopping at the first of these steps that fails;
    every engine that was created is then closed exactly once, the new
    engine first, whether or not a later step failed. *)
Theorem coordinator_steps (w : World) :
  run_events (migrateLegacyToBolt DataDir) w
  = Ev AtNewLegacy (CNewWithMap (DefaultLegacyStorage DataDir)) ::
    match fails (w_env w) AtNewLegacy with
    | Some _ => []
    | None =>
      Ev AtNewBolt (CNewWithMap (DefaultBoltStorage DataDir)) ::
      match fails (w_env w) AtNewBolt with
      | Some _ => [Ev AtCloseLegacy (CClose (legacyEngine DataDir))]
      | None =>
        Ev AtMigrateTo (CMigrateTo (legacyEngine DataDir)) ::
        match fails (w_env w) AtMigrateTo with
        | Some _ => []
        | None =>
          [Ev AtMigrateFrom
              (CMigrateFrom (boltEngine DataDir)
                 (kv.export (kv.contents (w_disk w) (legacyEngine DataDir))))]
        end ++
        [Ev AtCloseBolt (CClose (boltEngine DataDir));
         Ev AtCloseLegacy (CClose (legacyEngine DataDir))]
      end
    end.
Proof.
  destruct w as [env d t]. unfold run_events.
  rewrite migrateLegacyToBolt_run. cbv zeta. cbn [w_env w_disk w_trace].
  destruct (fails env AtNewLegacy); [apply drop_own_length|].
  destruct (fails env AtNewBolt); [apply drop_own_length|].
  destruct (fails env AtMigrateTo); apply drop_own_length.
Qed.

(** [PersistentPreRunE], path by path. *)
Lemma PersistentPreRunE_run env d t :
  PersistentPreRunE DataDir LogPath (Build_World env d t)
  = let logger :=
      {| zap.log_level :=
           if flag_debug env then zap.DebugLevel else zap.InfoLevel;
         zap.log_path := filepath.Join LogPath "latest.log" |} in
    let t0 :=
      t ++ Log (CLoggerNew logger) ::
           (if negb (String.eqb (flag_namespace env) "")
            then [Log (CInfo "Namespace" (flag_namespace env))] else []) in
    let create := fun d' t' =>
      (match kv.NewWithMap (flag_storage env) (fails env AtNewStorage) with
       | inl storage => inl {| ctx_logger := logger; ctx_kv := storage |}
       | inr err => inr (Wrap err "create kv storage")
       end,
       Build_World env d'
         (t' ++ [Ev AtNewStorage (CNewWithMap (flag_storage env))])) in
    if negb (storage_changed env)
       && negb (kv.PathExists d (defaultBoltPath DataDir))
    then
      let r := migrateLegacyToBolt DataDir (Build_World env d t0) in
      match r.1 with
      | Some err => (inr (Wrap err "migrate legacy to bolt"), r.2)
      | None => create (w_disk r.2) (w_trace r.2)
      end
    else create d t0.
Proof.
  assert (Henv : forall w, w_env (migrateLegacyToBolt DataDir w).2 = w_env w).
  { intros [env' d' t']. rewrite migrateLegacyToBolt_run. cbv zeta.
    repeat match goal with
           | |- context [fails env' ?s] => destruct (fails env' s)
           end; reflexivity. }
  unfold PersistentPreRunE. run_monad.
  assert (Ht : forall (l : list Event) (b : bool) x y,
             (if b then fun w : World => (tt, Build_World (w_env w) (w_disk w) (w_trace w ++ [y])) else fun w => (tt, w))
               (Build_World env d (t ++ [x]))
             = (tt, Build_World env d (t ++ x :: (if b then [y] else [])))).
  { intros _ [] x y; simpl; now rewrite <- ?app_assoc. }
  rewrite (Ht []). clear Ht. cbn [w_env w_disk w_trace].
  destruct (negb (storage_changed env)
            && negb (kv.PathExists d (defaultBoltPath DataDir))).
  - match goal with
    | |- context [migrateLegacyToBolt DataDir ?w] =>
        specialize (Henv w);
        destruct (migrateLegacyToBolt DataDir w) as [[e|] [env' d' t']]
    end; simpl in Henv; subst env'; cbn [fst snd w_disk w_trace];
      [reflexivity|].
    cbn [w_env].
    now destruct (kv.NewWithMap (flag_storage env) (fails env AtNewStorage)).
  - run_monad.
    now destruct (kv.NewWithMap (flag_storage env) (fails env AtNewStorage)).
Qed.

Ltac split_fails env :=
  repeat match goal with
         | |- context [fails env ?s] => destruct (fails env s)
         | H : context [fails env ?s] |- _ => destruct (fails env s)
         end.

(** C1.  A run of [PersistentPreRunE] visits a call site of
    [migrateLegacyToBolt] exactly when the storage flag was not changed
    by the caller and the default bolt path does not exist; otherwise
    none of them is visited. *)
Theorem migration_gate (w : World) :
  existsb in_migration
    (sites (run_events (PersistentPreRunE DataDir LogPath) w))
  = negb (storage_changed (w_env w))
    && negb (kv.PathExists (w_disk w) (defaultBoltPath DataDir)).
Proof.
  destruct w as [env d t]. unfold run_events.
  rewrite PersistentPreRunE_run. cbv zeta. cbn [w_env w_disk w_trace].
  destruct (negb (storage_changed env)
            && negb (kv.PathExists d (defaultBoltPath DataDir))).
  - rewrite migrateLegacyToBolt_run. cbv zeta. unfold kv.MigrateFrom.
    split_fails env; cbn [fst snd w_disk w_trace Append];
      rewrite <- ?app_assoc, drop_own_length;
      now destruct (negb (String.eqb (flag_namespace env) "")).
  - cbn [snd w_trace]. rewrite <- ?app_assoc, drop_own_length.
    now destruct (negb (String.eqb (flag_namespace env) "")).
Qed.


(** When the gate is closed, start-up leaves the disk as it found it. *)
Lemma startup_without_migration_keeps_disk (w : World) :
  negb (storage_changed (w_env w))
    && negb (kv.PathExists (w_disk w) (defaultBoltPath DataDir)) = false ->
  w_disk (PersistentPreRunE DataDir LogPath w).2 = w_disk w.
Proof.
  destruct w as [env d t]. cbn [w_env w_disk].
  rewrite PersistentPreRunE_run. cbv zeta. now intros ->.
Qed.




Lemma PersistentPostRunE_run ctx env d t :
  PersistentPostRunE ctx (Build_World env d t)
  = (Combine [fails env AtCloseStorage; fails env AtSync],
     Build_World env d
       (t ++ [Ev AtCloseStorage (CClose (ctx_kv ctx));
              Ev AtSync (CSync (ctx_logger ctx))])).
Proof.
  unfold PersistentPostRunE. run_monad. now rewrite <- app_assoc.
Qed.

(** C6.  Both hooks of teardown are invoked and report together:
    [PersistentPostRunE] calls Close and then Sync whatever Close
    returned, and its result is made of the errors of both;
    [migrateLegacyToBolt] invokes every deferred close it registered, and
    its result is made of the errors of its return statement followed by
    those of each close.  Nothing is dropped on either side. *)
Theorem close_errors_aggregated (ctx : Ctx) (w : World) :
  let env := w_env w in
  let body := migrateLegacyToBolt_body DataDir w in
  let deferred := body.1.2 in
  run_events (PersistentPostRunE ctx) w
  = [Ev AtCloseStorage (CClose (ctx_kv ctx));
     Ev AtSync (CSync (ctx_logger ctx))] /\
  Errors (PersistentPostRunE ctx w).1
  = Errors (fails env AtCloseStorage) ++ Errors (fails env AtSync) /\
  run_events (migrateLegacyToBolt DataDir) w
  = run_events (migrateLegacyToBolt_body DataDir) w
    ++ map invoker_event deferred /\
  Errors (migrateLegacyToBolt DataDir w).1
  = Errors body.1.1
    ++ flat_map (fun i => Errors (fails env (invoker_site i))) deferred.
Proof.
  destruct w as [env d t]. cbv zeta. cbn [w_env].
  split; [|split].
  - unfold run_events. rewrite PersistentPostRunE_run.
    apply drop_own_length.
  - rewrite PersistentPostRunE_run.
    apply multierr_facts.Errors_Combine_pair.
  - unfold run_events, migrateLegacyToBolt, mbind, M_bind.
    destruct (migrateLegacyToBolt_body DataDir (Build_World env d t))
      as [[r ds] [env' d' t']] eqn:Hbody.
    assert (env' = env /\ exists l, t' = t ++ l) as [-> [l ->]].
    { rewrite migrateLegacyToBolt_body_run in Hbody. cbv zeta in Hbody.
      split_fails env; injection Hbody as <- <- <- <- <-; eauto. }
    cbn [fst snd w_trace]. rewrite run_deferred_run. cbn [fst snd w_trace].
    split.
    + rewrite <- app_assoc, !drop_own_length. reflexivity.
    + apply Errors_deferred.
Qed.

(** C7 (amended).  When the command body returns nil, the run continues
    with [PersistentPostRunE], which invokes the engine's Close and the
    logger's Sync exactly once each, in that order; when the body returns
    an error the run ends with that error in the world the body left. *)
Theorem teardown_after_body (body : Ctx -> M (option error))
    (w w1 w2 : World) (ctx : Ctx) (r : option error) :
  PersistentPreRunE DataDir LogPath w = (inl ctx, w1) ->
  body ctx w1 = (r, w2) ->
  Execute DataDir LogPath body w
  = match r with
    | Some e => (Some e, w2)
    | None => PersistentPostRunE ctx w2
    end /\
  run_events (PersistentPostRunE ctx) w2
  = [Ev AtCloseStorage (CClose (ctx_kv ctx));
     Ev AtSync (CSync (ctx_logger ctx))].
Proof.
  intros Hpre Hbody. split.
  - unfold Execute, cobra.execute, mbind, M_bind. rewrite Hpre, Hbody.
    now destruct r.
  - destruct w2 as [env d t]. unfold run_events.
    rewrite PersistentPostRunE_run. apply drop_own_length.
Qed.


(** C9.  When opening the namespace, constructing the client and the
    authentication all succeed, what [tRun] does after these three calls
    is one application of the task function to the client it built and
    the namespace handle it opened; the task's result, error included,
    is the result of [tRun]. *)
Theorem tRun_runs_task (ctx : Ctx)
    (f : tclient.Client -> kv.KV -> M (option error))
    (mws : list tclient.Middleware) (w : World) :
  first_failure (w_env w) = None ->
  let env := w_env w in
  let kvd := {| kv.kv_engine := ctx_kv ctx; kv.kv_ns := flag_namespace env |} in
  let o := {| tclient.opt_KV := kvd;
              tclient.opt_Proxy := flag_proxy env;
              tclient.opt_NTP := flag_ntp env;
              tclient.opt_ReconnectTimeout := flag_reconnect_timeout env;
              tclient.opt_UpdateHandler := None |} in
  let client := {| tclient.cl_options := o; tclient.cl_login := false;
                   tclient.cl_middlewares := mws |} in
  tRun ctx f mws w
  = f client kvd
      (Build_World env (w_disk w)
         (w_trace w ++ [Ev AtOpen (COpen (ctx_kv ctx) (flag_namespace env));
                        Ev AtClientNew (CClientNew o false mws);
                        Ev AtAuth (CRunWithAuth client)])).
Proof.
  destruct w as [env d t]. unfold first_failure, tRun. cbn [w_env].
  run_monad. unfold kv.Open.
  destruct (fails env AtOpen); [discriminate|]. run_monad.
  destruct (fails env AtClientNew); [discriminate|]. run_monad.
  destruct (fails env AtAuth); [discriminate|]. intros _.
  now rewrite <- !app_assoc.
Qed.

(** C10.  The completion function for the namespace flag has no error
    result: when the listing fails it returns the nil list, otherwise the
    list [Namespaces()] returned, as it is, and in both cases the
    no-file-completion directive; it calls [Namespaces()] once. *)
Theorem completion_never_fails (ctx : Ctx) (w : World)
    (ns : list string) (err : error) :
  completeNamespace_of (ns, Some err)
  = ([], cobra.ShellCompDirectiveNoFileComp) /\
  completeNamespace_of (ns, None)
  = (ns, cobra.ShellCompDirectiveNoFileComp) /\
  (completeNamespace ctx w).1
  = completeNamespace_of
      (kv.Namespaces (w_disk w) (ctx_kv ctx) (fails (w_env w) AtNamespaces)) /\
  run_events (completeNamespace ctx) w
  = [Ev AtNamespaces (CNamespaces (ctx_kv ctx))].
Proof.
  destruct w as [env d t]. repeat split.
  unfold run_events, completeNamespace. run_monad. apply drop_own_length.
Qed.

(** *** Further properties of the hooks *)

Lemma wraps_of_incl (r : option error) (e u : error) :
  r = Some e ->
  (forall x, In x (Errors (Some u)) -> In x (Errors r)) ->
  wraps e u.
Proof.
  intros -> H. unfold wraps. rewrite Forall_forall. intros x Hx.
  apply multierr_facts.contains_Errors, H. now apply list_elem_of_In.
Qed.




Lemma Combine_carries (a b : option error) (u : error) :
  a = Some u \/ b = Some u ->
  exists e, Combine [a; b] = Some e /\ wraps e u.
Proof.
  intros H.
  assert (Hs : is_Some (Combine [a; b])).
  { destruct H as [-> | ->]; [destruct b | destruct a]; cbn; eauto. }
  destruct Hs as [e He]. exists e. split; [exact He|].
  apply (wraps_of_incl _ _ _ He). intros x Hx.
  rewrite multierr_facts.Errors_Combine_pair. apply in_or_app.
  destruct H as [-> | ->]; [now left | now right].
Qed.

(** Case analysis of a run of [PersistentPreRunE] over every outcome of
    the calls it makes. *)
Ltac startup_cases env d :=
  rewrite PersistentPreRunE_run; cbv zeta;
  destruct (negb (storage_changed env)
            && negb (kv.PathExists d (defaultBoltPath DataDir)));
  [rewrite migrateLegacyToBolt_run; cbv zeta; unfold kv.MigrateFrom|];
  split_fails env;
  cbn [fst snd w_trace w_disk w_env Append isErr];
  rewrite <- ?app_assoc, ?drop_own_length;
  destruct (negb (String.eqb (flag_namespace env) ""));
  try match goal with
      | |- context [kv.NewWithMap ?c ?io] => destruct (kv.NewWithMap c io)
      end.

(** X3.  [migrateLegacyToBolt] returns nil exactly when every call it
    made succeeded: a failure of either deferred close makes the result
    non-nil just as a failure of a step does. *)
Theorem migration_nil_iff_all_calls_succeed (w : World) :
  isErr (migrateLegacyToBolt DataDir w).1
  = existsb (failing (w_env w))
      (sites (run_events (migrateLegacyToBolt DataDir) w)).
Proof.
  destruct w as [env d t]. unfold run_events. cbn [w_env w_trace].
  rewrite migrateLegacyToBolt_run. cbv zeta. unfold kv.MigrateFrom.
  destruct (fails env AtNewLegacy) eqn:E1;
    [|destruct (fails env AtNewBolt) eqn:E2;
      [|destruct (fails env AtMigrateTo) eqn:E3;
        [|destruct (fails env AtMigrateFrom) eqn:E4]]];
    destruct (fails env AtCloseBolt) eqn:E5;
    destruct (fails env AtCloseLegacy) eqn:E6;
    cbn [fst snd w_trace Append isErr];
    rewrite drop_own_length; unfold failing; simpl;
    rewrite ?E1, ?E2, ?E3, ?E4, ?E5, ?E6; reflexivity.
Qed.


(** X5.  Start-up succeeds exactly when the migration, if it was
    triggered, had no failing call (steps and closes alike) and the
    storage engine of the process could be created. *)
Theorem startup_succeeds_iff (w : World) :
  succeeded (PersistentPreRunE DataDir LogPath w).1
  = (negb (negb (storage_changed (w_env w))
           && negb (kv.PathExists (w_disk w) (defaultBoltPath DataDir)))
     || negb (existsb (failing (w_env w))
                [AtNewLegacy; AtNewBolt; AtMigrateTo; AtMigrateFrom;
                 AtCloseBolt; AtCloseLegacy]))
    && succeeded (kv.NewWithMap (flag_storage (w_env w))
                    (fails (w_env w) AtNewStorage)).
Proof.
  destruct w as [env d t]. cbn [w_env w_disk]. unfold failing.
  cbn [existsb].
  startup_cases env d; reflexivity.
Qed.

(** X6.  An error of start-up says where it comes from: it is wrapped
    either with "migrate legacy to bolt", and then the storage engine of
    the process was never created, or with "create kv storage" around the
    error of that creation. *)
Theorem startup_error_tagged (w : World) (e : error) :
  (PersistentPreRunE DataDir LogPath w).1 = inr e ->
  (exists c, e = Wrap c "migrate legacy to bolt" /\
     ~ In AtNewStorage
         (sites (run_events (PersistentPreRunE DataDir LogPath) w))) \/
  (exists c, e = Wrap c "create kv storage" /\
     kv.NewWithMap (flag_storage (w_env w)) (fails (w_env w) AtNewStorage)
     = inr c /\
     In AtNewStorage
       (sites (run_events (PersistentPreRunE DataDir LogPath) w))).
Proof.
  destruct w as [env d t]. unfold run_events. cbn [w_env w_disk w_trace].
  destruct (kv.NewWithMap (flag_storage env) (fails env AtNewStorage))
    as [st|c] eqn:Hnew.
  all: startup_cases env d; try discriminate Hnew;
    cbn [fst snd w_trace]; rewrite <- ?app_assoc, ?drop_own_length;
    intros [= <-];
    first [ left; eexists; split; [reflexivity|];
            simpl; intuition discriminate
          | right; eexists; split; [reflexivity|]; split;
            [congruence | simpl; tauto] ].
Qed.

(** X7.  The storage engine of the process is created last, and only
    after the automatic migration, if it ran, has gone through all of its
    steps and closed both of its engines. *)
Theorem storage_created_after_migration (w : World) :
  In AtNewStorage
    (sites (run_events (PersistentPreRunE DataDir LogPath) w)) ->
  sites (run_events (PersistentPreRunE DataDir LogPath) w) = [AtNewStorage]
  \/ sites (run_events (PersistentPreRunE DataDir LogPath) w)
     = [AtNewLegacy; AtNewBolt; AtMigrateTo; AtMigrateFrom; AtCloseBolt;
        AtCloseLegacy; AtNewStorage].
Proof.
  destruct w as [env d t]. unfold run_events. cbn [w_env w_disk w_trace].
  startup_cases env d; cbn [fst snd w_trace];
    rewrite <- ?app_assoc, ?drop_own_length; simpl;
    intuition discriminate.
Qed.

(** X8.  On every path of start-up the logger is built before any call
    that may fail, at debug level exactly when the debug flag is set; the
    namespace is logged next, exactly when it is not empty; and every
    event after that is a call, not a log line. *)
Theorem startup_logs (w : World) :
  exists calls,
    run_events (PersistentPreRunE DataDir LogPath) w
    = Log (CLoggerNew
             {| zap.log_level := if flag_debug (w_env w)
                                 then zap.DebugLevel else zap.InfoLevel;
                zap.log_path := filepath.Join LogPath "latest.log" |})
      :: (if String.eqb (flag_namespace (w_env w)) "" then []
          else [Log (CInfo "Namespace" (flag_namespace (w_env w)))])
      ++ calls /\
    logs calls = [] /\
    length (sites calls) = length calls /\
    calls <> [].
Proof.
  destruct w as [env d t]. unfold run_events. cbn [w_env w_disk w_trace].
  rewrite PersistentPreRunE_run; cbv zeta.
  destruct (negb (storage_changed env)
            && negb (kv.PathExists d (defaultBoltPath DataDir)));
    [rewrite migrateLegacyToBolt_run; cbv zeta; unfold kv.MigrateFrom|];
    split_fails env;
    cbn [fst snd w_trace w_disk w_env Append isErr];
    rewrite <- ?app_assoc, ?drop_own_length;
    destruct (String.eqb (flag_namespace env) "");
    cbn [negb app];
    (eexists; split; [reflexivity|]; repeat split; discriminate).
Qed.

(** X9.  [PersistentPostRunE] returns nil exactly when Close and Sync
    both return nil; when one of them fails its error is returned as it
    is, and when both fail the result aggregates the errors of Close
    followed by those of Sync. *)
Theorem teardown_result (ctx : Ctx) (w : World) :
  (PersistentPostRunE ctx w).1
  = match fails (w_env w) AtCloseStorage, fails (w_env w) AtSync with
    | None, None => None
    | Some c, None => Some c
    | None, Some s => Some s
    | Some c, Some s => Some (ErrMulti (Errors (Some c) ++ Errors (Some s)))
    end.
Proof.
  destruct w as [env d t]. rewrite PersistentPostRunE_run.
  cbn [fst w_env].
  destruct (fails env AtCloseStorage), (fails env AtSync); cbn;
    rewrite ?app_nil_r; reflexivity.
Qed.

(** X10.  When a phase of [tRun] fails, the phases after it are not
    attempted and the task function is never invoked: the calls made stop
    at the failing phase and the outcome does not depend on the task. *)
Theorem tRun_failure_skips_task (ctx : Ctx)
    (f g : tclient.Client -> kv.KV -> M (option error))
    (mws : list tclient.Middleware) (w : World) (p : Phase) :
  first_failure (w_env w) = Some p ->
  tRun ctx f mws w = tRun ctx g mws w /\
  sites (run_events (tRun ctx f mws) w)
  = match p with
    | PhaseOpen => [AtOpen]
    | PhaseClient => [AtOpen; AtClientNew]
    | PhaseAuth => [AtOpen; AtClientNew; AtAuth]
    end.
Proof.
  destruct w as [env d t]. unfold first_failure, run_events, tRun.
  cbn [w_env w_trace]. run_monad. unfold kv.Open.
  destruct (fails env AtOpen); run_monad.
  { intros [= <-]. split; [reflexivity|].
    now rewrite <- ?app_assoc, drop_own_length. }
  destruct (fails env AtClientNew); run_monad.
  { intros [= <-]. split; [reflexivity|].
    now rewrite <- ?app_assoc, drop_own_length. }
  destruct (fails env AtAuth); run_monad.
  { intros [= <-]. split; [reflexivity|].
    now rewrite <- ?app_assoc, drop_own_length. }
  discriminate.
Qed.

(** X11.  A failure of Close or of Sync at teardown is reported even
    though the command body returned nil: the run ends with an error
    that wraps it. *)
Theorem teardown_failure_reported (body : Ctx -> M (option error))
    (w w1 w2 : World) (ctx : Ctx) (u : error) :
  PersistentPreRunE DataDir LogPath w = (inl ctx, w1) ->
  body ctx w1 = (None, w2) ->
  fails (w_env w2) AtCloseStorage = Some u
  \/ fails (w_env w2) AtSync = Some u ->
  exists e, (Execute DataDir LogPath body w).1 = Some e /\ wraps e u.
Proof.
  intros Hpre Hbody Hfail.
  unfold Execute, cobra.execute, mbind, M_bind. rewrite Hpre, Hbody.
  destruct w2 as [env d t]. rewrite PersistentPostRunE_run.
  cbn [fst w_env] in *. now apply Combine_carries.
Qed.

(** X12.  Whatever the data directory, empty or not, clean or not, the
    legacy store and the bolt store have different default paths. *)
Theorem default_paths_differ :
  String.eqb (legacyPath DataDir) (defaultBoltPath DataDir) = false.
Proof. apply String.eqb_neq, paths_distinct. Qed.

(** X13.  First start after the upgrade: with the storage flag left at
    its default, no bolt store on disk and no failing call, start-up
    succeeds, the engine it hands to the commands is the default bolt
    engine, and that engine serves exactly what the legacy store held. *)
Theorem first_start_migrates (w : World) :
  storage_changed (w_env w) = false ->
  flag_storage (w_env w) = DefaultBoltStorage DataDir ->
  w_disk w !! defaultBoltPath DataDir = None ->
  (forall s, fails (w_env w) s = None) ->
  exists ctx,
    (PersistentPreRunE DataDir LogPath w).1 = inl ctx /\
    ctx_kv ctx = boltEngine DataDir /\
    kv.contents (w_disk (PersistentPreRunE DataDir LogPath w).2) (ctx_kv ctx)
    = kv.contents (w_disk w) (legacyEngine DataDir).
Proof.
  destruct w as [env d t]. cbn [w_env w_disk].
  intros Hflag Hcfg Hfresh Hok.
  rewrite PersistentPreRunE_run. cbv zeta.
  rewrite Hflag, Hcfg, NewWithMap_bolt, !Hok.
  unfold kv.PathExists. rewrite Hfresh.
  rewrite bool_decide_eq_false_2 by (intros [? [=]]).
  cbn [negb andb]. rewrite migrateLegacyToBolt_run. cbv zeta.
  rewrite !Hok. cbn [fst snd w_disk w_trace Append kv.MigrateFrom].
  eexists. split; [reflexivity|]. split; [reflexivity|].
  cbn [ctx_kv].
  apply (MigrateFrom_MigrateTo d (legacyEngine DataDir)
           (boltEngine DataDir) (import_progress env) Hfresh).
Qed.

End Root.

Section ExtFiles.

Variable Glob : string -> list string * option error.

Lemma completeExtFiles_loop_closed (toComplete : string) (ext files : list string) :
  completeExtFiles_loop Glob toComplete ext files
  = if existsb (fun e => isErr (Glob (toComplete +:+ "*." +:+ e)).2) ext
    then ([], cobra.ShellCompDirectiveDefault)
    else (files ++ flat_map (fun e => (Glob (toComplete +:+ "*." +:+ e)).1) ext,
          cobra.ShellCompDirectiveFilterDirs).
Proof.
  revert files. induction ext as [|e ext IH]; intros files; simpl.
  - now rewrite app_nil_r.
  - destruct (Glob (toComplete +:+ "*." +:+ e)) as [names [err|]]; simpl;
      [reflexivity|].
    rewrite IH. now rewrite <- app_assoc.
Qed.

(** X1.  [completeExtFiles]: if the glob of any of the extensions
    reports an error, the suggestion list is nil and the directive is the
    default one, the names found for the other extensions being dropped;
    otherwise the suggestions are the names found for each extension, in
    the order of the extensions, with the filter-directories directive. *)
Theorem completeExtFiles_result (ext : list string) (toComplete : string) :
  completeExtFiles Glob ext toComplete
  = if existsb (fun e => isErr (Glob (toComplete +:+ "*." +:+ e)).2) ext
    then ([], cobra.ShellCompDirectiveDefault)
    else (flat_map (fun e => (Glob (toComplete +:+ "*." +:+ e)).1) ext,
          cobra.ShellCompDirectiveFilterDirs).
Proof. apply completeExtFiles_loop_closed. Qed.

(** X2.  Completing for two lists of extensions at once gives the
    suggestions for the first list followed by those for the second, and
    fails as soon as either of them fails. *)
Theorem completeExtFiles_app (ext1 ext2 : list string) (toComplete : string) :
  completeExtFiles Glob (ext1 ++ ext2) toComplete
  = match completeExtFiles Glob ext1 toComplete,
          completeExtFiles Glob ext2 toComplete with
    | (files1, cobra.ShellCompDirectiveFilterDirs),
      (files2, cobra.ShellCompDirectiveFilterDirs) =>
        (files1 ++ files2, cobra.ShellCompDirectiveFilterDirs)
    | _, _ => ([], cobra.ShellCompDirectiveDefault)
    end.
Proof.
  unfold completeExtFiles. rewrite !completeExtFiles_loop_closed.
  rewrite existsb_app, flat_map_app.
  destruct (existsb _ ext1), (existsb _ ext2); reflexivity.
Qed.

End ExtFiles.

(** *** The theorems at work on concrete worlds *)

Import examples.


(** *** Runs of the tool on the first start after the upgrade *)

Example first_start_sites :
  sites (run_events (Execute DataDir LogPath ok_body) w0)
  = [AtNewLegacy; AtNewBolt; AtMigrateTo; AtMigrateFrom; AtCloseBolt;
     AtCloseLegacy; AtNewStorage; AtCloseStorage; AtSync].
Proof. vm_compute. reflexivity. Qed.

Example first_start_result :
  (Execute DataDir LogPath ok_body w0).1 = None.
Proof. vm_compute. reflexivity. Qed.

Example first_start_copies_the_store :
  w_disk (Execute DataDir LogPath ok_body w0).2 !! defaultBoltPath DataDir
  = Some legacy_store.
Proof. vm_compute. reflexivity. Qed.

Example second_start_does_not_migrate :
  sites (run_events (Execute DataDir LogPath ok_body)
           (Execute DataDir LogPath ok_body w0).2)
  = [AtNewStorage; AtCloseStorage; AtSync].
Proof. vm_compute. reflexivity. Qed.

Example failed_import_result :
  (PersistentPreRunE DataDir LogPath w_import_fails).1
  = inr (Wrap disk_full "migrate legacy to bolt").
Proof. vm_compute. reflexivity. Qed.

Example failed_import_is_partial :
  size <$> (w_disk (PersistentPreRunE DataDir LogPath w_import_fails).2
              !! defaultBoltPath DataDir)
  = Some 1.
Proof. vm_compute. reflexivity. Qed.

Example business_error_sites :
  sites (run_events (Execute DataDir LogPath failing_body) w0)
  = [AtNewLegacy; AtNewBolt; AtMigrateTo; AtMigrateFrom; AtCloseBolt;
     AtCloseLegacy; AtNewStorage].
Proof. vm_compute. reflexivity. Qed.

Example completion_lists_namespaces :
  (completeNamespace {| ctx_logger := ctx_logger ctx0;
                        ctx_kv := legacyEngine DataDir |} w0).1
  = (["work"; "default"], cobra.ShellCompDirectiveNoFileComp).
Proof. vm_compute. reflexivity. Qed.

Lemma migrate_roundtrip_witness :
  disk0 !! kv.eng_path (boltEngine DataDir) = None /\
  kv.contents
    (kv.MigrateFrom disk0 (boltEngine DataDir)
       (kv.MigrateTo disk0 (legacyEngine DataDir) None).1 None 0).1
    (boltEngine DataDir)
  = kv.contents disk0 (legacyEngine DataDir).
Proof.
  split; [vm_compute; reflexivity|].
  apply (migrate_roundtrip (legacyEngine DataDir) (boltEngine DataDir)
           disk0 0).
  vm_compute; reflexivity.
Defined.

(** C3, as stated, fails: when the legacy engine cannot be created the
    coordinator returns at once and closes nothing. *)
Lemma coordinator_closes_nothing_without_legacy :
  ~ (forall w : World,
       visits AtCloseLegacy (run_events (migrateLegacyToBolt DataDir) w) = 1
       /\ visits AtCloseBolt (run_events (migrateLegacyToBolt DataDir) w) = 1).
Proof.
  intros H. destruct (H w_legacy_unavailable) as [Hl _].
  vm_compute in Hl. discriminate Hl.
Qed.




(** C7, as stated, fails: a command body that returns an error ends the
    run, and neither Close nor Sync is invoked. *)
Lemma teardown_skipped_on_error :
  ~ (forall (r : option error) (w w1 : World) (ctx : Ctx),
       PersistentPreRunE DataDir LogPath w = (inl ctx, w1) ->
       visits AtCloseStorage
         (run_events (Execute DataDir LogPath (fun _ => mret r)) w) = 1
       /\ visits AtSync
            (run_events (Execute DataDir LogPath (fun _ => mret r)) w) = 1).
Proof.
  intros H.
  destruct (H (Some business_error) w0
              (PersistentPreRunE DataDir LogPath w0).2 ctx0) as [Hc _].
  - vm_compute. reflexivity.
  - vm_compute in Hc. discriminate Hc.
Qed.

Lemma teardown_after_body_witness :
  PersistentPreRunE DataDir LogPath w0
  = (inl ctx0, (PersistentPreRunE DataDir LogPath w0).2) /\
  ok_body ctx0 (PersistentPreRunE DataDir LogPath w0).2
  = (None, (PersistentPreRunE DataDir LogPath w0).2) /\
  Execute DataDir LogPath ok_body w0
  = PersistentPostRunE ctx0 (PersistentPreRunE DataDir LogPath w0).2 /\
  run_events (PersistentPostRunE ctx0) (PersistentPreRunE DataDir LogPath w0).2
  = [Ev AtCloseStorage (CClose (ctx_kv ctx0));
     Ev AtSync (CSync (ctx_logger ctx0))].
Proof.
  assert (Hpre : PersistentPreRunE DataDir LogPath w0
                 = (inl ctx0, (PersistentPreRunE DataDir LogPath w0).2)).
  { vm_compute. reflexivity. }
  split; [exact Hpre|]. split; [reflexivity|].
  exact (teardown_after_body DataDir LogPath ok_body w0 _ _ ctx0 None
           Hpre eq_refl).
Defined.


Lemma tRun_runs_task_witness :
  first_failure (w_env w0) = None /\
  (tRun ctx0 task ["ratelimit"] w0).1 = Some business_error /\
  length (List.filter
            (fun ev => match ev with
                       | Log (CInfo m _) => String.eqb m "task"
                       | _ => false
                       end)
            (run_events (tRun ctx0 task ["ratelimit"]) w0)) = 1.
Proof.
  split; [reflexivity|]. unfold run_events.
  rewrite (tRun_runs_task ctx0 task ["ratelimit"] w0 eq_refl).
  split; vm_compute; reflexivity.
Defined.

(** *** Further runs *)

Example complete_json_and_txt :
  completeExtFiles glob0 ["json"; "txt"] "exp"
  = (["exp1.json"; "export.json"; "exp.txt"],
     cobra.ShellCompDirectiveFilterDirs).
Proof. reflexivity. Qed.

Example complete_bad_pattern_drops_all :
  completeExtFiles glob0 ["json"; "["; "txt"] "exp"
  = ([], cobra.ShellCompDirectiveDefault).
Proof. reflexivity. Qed.

Example close_failure_result :
  (PersistentPreRunE DataDir LogPath w_close_fails).1
  = inr (Wrap close_failed "migrate legacy to bolt").
Proof. vm_compute. reflexivity. Qed.


Lemma startup_error_tagged_witness :
  (PersistentPreRunE DataDir LogPath w_legacy_unavailable).1
  = inr (Wrap (Wrap permission_denied "create legacy kv storage")
           "migrate legacy to bolt") /\
  ((exists c,
      Wrap (Wrap permission_denied "create legacy kv storage")
        "migrate legacy to bolt" = Wrap c "migrate legacy to bolt" /\
      ~ In AtNewStorage
          (sites (run_events (PersistentPreRunE DataDir LogPath)
                    w_legacy_unavailable))) \/
   (exists c,
      Wrap (Wrap permission_denied "create legacy kv storage")
        "migrate legacy to bolt" = Wrap c "create kv storage" /\
      kv.NewWithMap (flag_storage (w_env w_legacy_unavailable))
        (fails (w_env w_legacy_unavailable) AtNewStorage) = inr c /\
      In AtNewStorage
        (sites (run_events (PersistentPreRunE DataDir LogPath)
                  w_legacy_unavailable)))).
Proof.
  assert (H : (PersistentPreRunE DataDir LogPath w_legacy_unavailable).1
              = inr (Wrap (Wrap permission_denied "create legacy kv storage")
                       "migrate legacy to bolt")).
  { vm_compute. reflexivity. }
  split; [exact H|].
  exact (startup_error_tagged DataDir LogPath w_legacy_unavailable _ H).
Defined.

Lemma storage_created_after_migration_witness :
  In AtNewStorage
    (sites (run_events (PersistentPreRunE DataDir LogPath) w0)) /\
  (sites (run_events (PersistentPreRunE DataDir LogPath) w0) = [AtNewStorage]
   \/ sites (run_events (PersistentPreRunE DataDir LogPath) w0)
      = [AtNewLegacy; AtNewBolt; AtMigrateTo; AtMigrateFrom; AtCloseBolt;
         AtCloseLegacy; AtNewStorage]).
Proof.
  assert (Hin : In AtNewStorage
            (sites (run_events (PersistentPreRunE DataDir LogPath) w0))).
  { vm_compute. do 6 right. now left. }
  split; [exact Hin|].
  exact (storage_created_after_migration DataDir LogPath w0 Hin).
Defined.

Lemma tRun_failure_skips_task_witness :
  first_failure (w_env w_unauthorized) = Some PhaseAuth /\
  tRun ctx0 task [] w_unauthorized = tRun ctx0 ok_task [] w_unauthorized /\
  sites (run_events (tRun ctx0 task []) w_unauthorized)
  = [AtOpen; AtClientNew; AtAuth].
Proof.
  split; [reflexivity|].
  exact (tRun_failure_skips_task ctx0 task ok_task [] w_unauthorized
           PhaseAuth eq_refl).
Defined.

Lemma teardown_failure_reported_witness :
  PersistentPreRunE DataDir LogPath w_teardown_fails
  = (inl ctx0, (PersistentPreRunE DataDir LogPath w_teardown_fails).2) /\
  ok_body ctx0 (PersistentPreRunE DataDir LogPath w_teardown_fails).2
  = (None, (PersistentPreRunE DataDir LogPath w_teardown_fails).2) /\
  fails (w_env (PersistentPreRunE DataDir LogPath w_teardown_fails).2)
    AtCloseStorage = Some close_failed /\
  exists e,
    (Execute DataDir LogPath ok_body w_teardown_fails).1 = Some e /\
    wraps e close_failed.
Proof.
  assert (Hpre : PersistentPreRunE DataDir LogPath w_teardown_fails
                 = (inl ctx0,
                    (PersistentPreRunE DataDir LogPath w_teardown_fails).2)).
  { vm_compute. reflexivity. }
  assert (Hfail : fails (w_env (PersistentPreRunE DataDir LogPath
                                  w_teardown_fails).2)
                    AtCloseStorage = Some close_failed).
  { vm_compute. reflexivity. }
  split; [exact Hpre|]. split; [reflexivity|]. split; [exact Hfail|].
  exact (teardown_failure_reported DataDir LogPath ok_body w_teardown_fails
           _ _ ctx0 close_failed Hpre eq_refl (or_introl Hfail)).
Defined.

Lemma first_start_migrates_witness :
  storage_changed (w_env w0) = false /\
  flag_storage (w_env w0) = DefaultBoltStorage DataDir /\
  w_disk w0 !! defaultBoltPath DataDir = None /\
  (forall s, fails (w_env w0) s = None) /\
  exists ctx,
    (PersistentPreRunE DataDir LogPath w0).1 = inl ctx /\
    ctx_kv ctx = boltEngine DataDir /\
    kv.contents (w_disk (PersistentPreRunE DataDir LogPath w0).2) (ctx_kv ctx)
    = kv.contents (w_disk w0) (legacyEngine DataDir).
Proof.
  assert (Hfresh : w_disk w0 !! defaultBoltPath DataDir = None).
  { vm_compute. reflexivity. }
  split; [reflexivity|]. split; [reflexivity|]. split; [exact Hfresh|].
  split; [intros s; reflexivity|].
  exact (first_start_migrates DataDir LogPath w0 eq_refl eq_refl Hfresh
           (fun s => eq_refl)).
Defined.

End cmd_facts.
